(** * MartisGameEnv: the LightZero adapter around the Marti's Game engine

    Shallow embedding of
    [zoo/assembly/martis_game/envs/martis_game_lightzero_env.py].

    The adapter is a thin, stateful shim: every method reads and writes
    attributes of [self], calls into the game engine and may raise.  The
    methods are therefore embedded in a small state-and-exception monad over
    the adapter instance; the engine ([game.Game], [MAX_LINES]) is imported
    from a module outside this file and enters as an interface. *)

From Stdlib Require Import QArith.
From stdpp Require Import gmap strings list fin_maps.

Open Scope Z_scope.
Open Scope string_scope.

(** ** Python values that cross the adapter boundary *)

(** The exceptions the modelled code can raise: a failed attribute read, or
    whatever the engine signals from [Game.step]. *)
Inductive PyExn : Type :=
| AttributeError (attr : string)
| EngineError (msg : string).

(** A numpy array of integers: its [shape] tuple and its flat contents. *)
Record ndarray : Type := { shape : list nat; data : list Z }.

(** [ndarray.squeeze()]: every axis of length one is dropped, the contents
    are kept. *)
Definition squeeze (a : ndarray) : ndarray :=
  {| shape := filter (λ d, d ≠ 1%nat) (shape a); data := data a |}.

(** What a caller can pass as [action]: a Python int, a Python list, or a
    numpy array. *)
Inductive Action : Type :=
| PyInt (i : Z)
| PyList (l : list Z)
| NdArray (a : ndarray).

(** Rewards and the episode return are Python numbers; only [0] and [+] are
    used on them. *)
Class Number (R : Type) : Type := { rzero : R; radd : R → R → R }.

(** Values stored in the [info] dict. *)
Inductive PyVal (R : Type) : Type :=
| VNone
| VBool (b : bool)
| VNum (r : R)
| VStr (s : string).
Arguments VNone {R}.
Arguments VBool {R} b.
Arguments VNum {R} r.
Arguments VStr {R} s.

(** ** The engine interface ([from game import Game as MartisGame, MAX_LINES])

    [game_step] returns the 5-tuple [(obs, rew, terminated, truncated, info)]
    or raises, and moves the engine to a new state either way.  The [info]
    dict is an object made by the engine, which may keep a reference to it:
    [game_info_setitem g k v] is the engine after the adapter has executed
    [info[k] = v] on that object (the identity for an engine that builds a
    new dict on every step). *)
Class GameEngine (R Obs G : Type) : Type := {
  NUM_ACTIONS : nat;
  MAX_LINES : nat;
  game_new : G;
  game_reset : G → G;
  game_state : G → Obs;
  game_step : G → Action →
    (PyExn + (Obs * R * bool * bool * gmap string (PyVal R))) * G;
  game_info_setitem : G → string → PyVal R → G
}.

(** [ding.torch_utils.to_ndarray], applied to the engine's raw state. *)
Class NdConvert (Obs : Type) : Type := { to_ndarray : Obs → Obs }.

(** ** Spaces *)

(** [gym.spaces.MultiBinary(n)] *)
Record MultiBinary : Type := { mb_n : nat }.

(** [gym.spaces.Discrete(n)], with the seed given to its sampler, if any. *)
Record Discrete : Type := { n : nat; np_random : option Z }.

(** [gym.spaces.Box(low, high, shape, dtype)] *)
Record Box : Type :=
  { low : Q; high : Q; box_shape : list nat; dtype : string }.

(** [Discrete.seed(s)] *)
Definition space_seed (s : Z) (sp : Discrete) : Discrete :=
  {| n := n sp; np_random := Some s |}.

(** ** Configuration *)

(** [cfg] is annotated [dict]; callers pass an [EasyDict], whose keys can be
    read as attributes.  A plain [dict] has no such attributes. *)
Inductive Config : Type :=
| PlainDict (items : gmap string (option string))
| EasyDict (items : gmap string (option string)).

Definition cfg_items (cfg : Config) : gmap string (option string) :=
  match cfg with PlainDict items | EasyDict items => items end.

(** [cfg.<name>] *)
Definition cfg_getattr (cfg : Config) (name : string)
  : PyExn + option string :=
  match cfg with
  | PlainDict _ => inl (AttributeError name)
  | EasyDict items =>
      match items !! name with
      | Some v => inr v
      | None => inl (AttributeError name)
      end
  end.

(** [MartisGameEnv.config] and [default_config()] *)
Definition config : gmap string (option string) :=
  <["replay_path" := None]> {["env_id" := Some "MartisGame-v0"]}.

Definition default_config : Config :=
  EasyDict (<["cfg_type" := Some "MartisGameEnvDict"]> config).

(** ** Records returned to the caller *)

(** The dict [{'observation': .., 'action_mask': .., 'to_play': ..}] *)
Record ObservationRecord (Obs : Type) : Type := {
  observation : Obs;
  action_mask : list Z;
  to_play : Z
}.
Arguments observation {Obs} _.
Arguments action_mask {Obs} _.
Arguments to_play {Obs} _.

(** [BaseEnvTimestep(obs, reward, done, info)] *)
Record BaseEnvTimestep (R Obs : Type) : Type := {
  obs : ObservationRecord Obs;
  reward : R;
  done : bool;
  info : gmap string (PyVal R)
}.
Arguments obs {R Obs} _.
Arguments reward {R Obs} _.
Arguments done {R Obs} _.
Arguments info {R Obs} _.

(** [np.ones(n, 'int8')] *)
Definition np_ones (len : nat) : list Z := replicate len 1.

(** ** The adapter instance *)

(** The attributes of a [MartisGameEnv] instance.  [_eval_episode_return],
    [_seed] and [_dynamic_seed] do not exist until [reset()], respectively
    [seed()], has assigned them: [None] stands for a missing attribute. *)
Record MartisGameEnv (R G : Type) : Type := {
  _cfg : Config;
  _init_flag : bool;
  _continuous : bool;
  _replay_path : option string;
  _observation_space : MultiBinary;
  _action_space : Discrete;
  _reward_space : Box;
  game : G;
  _eval_episode_return : option R;
  _seed : option Z;
  _dynamic_seed : option bool
}.
Arguments _cfg {R G} _.
Arguments _init_flag {R G} _.
Arguments _continuous {R G} _.
Arguments _replay_path {R G} _.
Arguments _observation_space {R G} _.
Arguments _action_space {R G} _.
Arguments _reward_space {R G} _.
Arguments game {R G} _.
Arguments _eval_episode_return {R G} _.
Arguments _seed {R G} _.
Arguments _dynamic_seed {R G} _.

(** What a method call can change: the instance, and the seed of numpy's
    process-wide random source (written by [seed()]). *)
Record World (R G : Type) : Type := {
  self : MartisGameEnv R G;
  np_random_seed : option Z
}.
Arguments self {R G} _.
Arguments np_random_seed {R G} _.

(** ** The monad of method bodies: state of the world, possibly an exception.
    An exception keeps the state reached when it was raised. *)
Module Py.

Definition M (W A : Type) : Type := W → (PyExn + A) * W.

Definition ret {W A} (x : A) : M W A := λ w, (inr x, w).

Definition raise {W A} (e : PyExn) : M W A := λ w, (inl e, w).

Definition bind {W A B} (m : M W A) (k : A → M W B) : M W B :=
  λ w, match m w with
       | (inr x, w') => k x w'
       | (inl e, w') => (inl e, w')
       end.

Definition get {W} : M W W := λ w, (inr w, w).

Definition modify {W} (f : W → W) : M W unit := λ w, (inr tt, f w).

End Py.

Notation "x <~ m ;; k" := (Py.bind m (λ x, k))
  (at level 100, m at next level, right associativity,
   format "'[v' x  <~  m  ;;  '/' k ']'").
Notation "m ;;; k" := (Py.bind m (λ _, k))
  (at level 100, right associativity,
   format "'[v' m  ;;;  '/' k ']'").

Section Adapter.

Context {R Obs G : Type} {num : Number R} {engine : GameEngine R Obs G}
  {conv : NdConvert Obs}.

Local Abbreviation Env := (MartisGameEnv R G).
Local Abbreviation W := (World R G).
Local Abbreviation Info := (gmap string (PyVal R)).
Local Abbreviation Timestep := (BaseEnvTimestep R Obs).

(** *** Attribute reads and writes *)

Definition with_self (f : Env → Env) (w : W) : W :=
  {| self := f (self w); np_random_seed := np_random_seed w |}.

Definition set_init_flag (b : bool) (e : Env) : Env :=
  {| _cfg := _cfg e; _init_flag := b; _continuous := _continuous e;
     _replay_path := _replay_path e;
     _observation_space := _observation_space e;
     _action_space := _action_space e; _reward_space := _reward_space e;
     game := game e; _eval_episode_return := _eval_episode_return e;
     _seed := _seed e; _dynamic_seed := _dynamic_seed e |}.

Definition set_replay_path (p : option string) (e : Env) : Env :=
  {| _cfg := _cfg e; _init_flag := _init_flag e;
     _continuous := _continuous e; _replay_path := p;
     _observation_space := _observation_space e;
     _action_space := _action_space e; _reward_space := _reward_space e;
     game := game e; _eval_episode_return := _eval_episode_return e;
     _seed := _seed e; _dynamic_seed := _dynamic_seed e |}.

Definition set_observation_space (sp : MultiBinary) (e : Env) : Env :=
  {| _cfg := _cfg e; _init_flag := _init_flag e;
     _continuous := _continuous e; _replay_path := _replay_path e;
     _observation_space := sp;
     _action_space := _action_space e; _reward_space := _reward_space e;
     game := game e; _eval_episode_return := _eval_episode_return e;
     _seed := _seed e; _dynamic_seed := _dynamic_seed e |}.

Definition set_game (g : G) (e : Env) : Env :=
  {| _cfg := _cfg e; _init_flag := _init_flag e;
     _continuous := _continuous e; _replay_path := _replay_path e;
     _observation_space := _observation_space e;
     _action_space := _action_space e; _reward_space := _reward_space e;
     game := g; _eval_episode_return := _eval_episode_return e;
     _seed := _seed e; _dynamic_seed := _dynamic_seed e |}.

Definition set_eval_episode_return (r : R) (e : Env) : Env :=
  {| _cfg := _cfg e; _init_flag := _init_flag e;
     _continuous := _continuous e; _replay_path := _replay_path e;
     _observation_space := _observation_space e;
     _action_space := _action_space e; _reward_space := _reward_space e;
     game := game e; _eval_episode_return := Some r;
     _seed := _seed e; _dynamic_seed := _dynamic_seed e |}.

Definition set_seed (s : Z) (e : Env) : Env :=
  {| _cfg := _cfg e; _init_flag := _init_flag e;
     _continuous := _continuous e; _replay_path := _replay_path e;
     _observation_space := _observation_space e;
     _action_space := _action_space e; _reward_space := _reward_space e;
     game := game e; _eval_episode_return := _eval_episode_return e;
     _seed := Some s; _dynamic_seed := _dynamic_seed e |}.

Definition set_dynamic_seed (b : bool) (e : Env) : Env :=
  {| _cfg := _cfg e; _init_flag := _init_flag e;
     _continuous := _continuous e; _replay_path := _replay_path e;
     _observation_space := _observation_space e;
     _action_space := _action_space e; _reward_space := _reward_space e;
     game := game e; _eval_episode_return := _eval_episode_return e;
     _seed := _seed e; _dynamic_seed := Some b |}.

(** [self.<attr> = v] *)
Definition setattr (f : Env → Env) : Py.M W unit := Py.modify (with_self f).

(** [self.<attr>] for an attribute assigned in [__init__] *)
Definition getattr {A} (f : Env → A) : Py.M W A :=
  w <~ Py.get ;; Py.ret (f (self w)).

(** [self.<attr>] for an attribute that may not have been assigned yet *)
Definition getattr_opt {A} (name : string) (f : Env → option A)
  : Py.M W A :=
  w <~ Py.get ;;
  match f (self w) with
  | Some v => Py.ret v
  | None => Py.raise (AttributeError name)
  end.

(** *** Calls into the engine and into numpy *)

(** [self.game.reset()] *)
Definition game_dot_reset : Py.M W unit :=
  g <~ getattr game ;; setattr (set_game (game_reset g)).

(** [self.game.state()] *)
Definition game_dot_state : Py.M W Obs :=
  g <~ getattr game ;; Py.ret (game_state g).

(** [self.game.step(action)]: the engine moves on, whether it returns or
    raises. *)
Definition game_dot_step (action : Action)
  : Py.M W (Obs * R * bool * bool * Info) :=
  λ w, let '(r, g') := game_step (game (self w)) action in
       (r, with_self (set_game g') w).

(** [info[key] = v], on the dict object handed out by the engine. *)
Definition dict_setitem (info : Info) (key : string) (v : PyVal R)
  : Py.M W Info :=
  g <~ getattr game ;;
  setattr (set_game (game_info_setitem g key v)) ;;;
  Py.ret (<[key := v]> info).

(** [np.random.seed(s)] *)
Definition np_random_dot_seed (s : Z) : Py.M W unit :=
  Py.modify (λ w, {| self := self w; np_random_seed := Some s |}).

(** *** The methods of [MartisGameEnv] *)

(** [my_space(self)], for a positive [MAX_LINES]: [gym] builds no empty
    [MultiBinary] space. *)
Definition my_space : Py.M W MultiBinary :=
  let SPACE_SHAPE := (MAX_LINES * 64)%nat in
  Py.ret {| mb_n := SPACE_SHAPE |}.

(** [__init__(self, cfg)]: the new instance, or the exception that left the
    constructor; for a positive [NUM_ACTIONS], as [gym] builds no empty
    [Discrete] space. *)
Definition construct (cfg : Config) : PyExn + Env :=
  match cfg_getattr cfg "replay_path" with
  | inl e => inl e
  | inr replay_path =>
      inr {| _cfg := cfg;
             _init_flag := false;
             _continuous := false;
             _replay_path := replay_path;
             _observation_space := {| mb_n := 1280 |};
             _action_space :=
               space_seed 0 {| n := NUM_ACTIONS; np_random := None |};
             _reward_space :=
               {| low := 0; high := 1; box_shape := [1%nat];
                  dtype := "float32" |};
             game := game_new;
             _eval_episode_return := None;
             _seed := None;
             _dynamic_seed := None |}
  end.

(** [reset(self)], for a positive [MAX_LINES] (see [my_space]) *)
Definition reset : Py.M W (ObservationRecord Obs) :=
  game_dot_reset ;;;
  obs <~ game_dot_state ;;
  sp <~ my_space ;;
  setattr (set_observation_space sp) ;;;
  setattr (set_eval_episode_return rzero) ;;;
  let obs := to_ndarray obs in
  action_space <~ getattr _action_space ;;
  let action_mask := np_ones (n action_space) in
  Py.ret {| observation := obs; action_mask := action_mask; to_play := -1 |}.

(** Lines 93-94 of [step]: an ndarray of shape [(1,)] is squeezed. *)
Definition normalize_action (action : Action) : Action :=
  match action with
  | NdArray a =>
      if bool_decide (shape a = [1%nat]) then NdArray (squeeze a) else action
  | _ => action
  end.

(** Lines 97-106 of [step]: what is done with the engine's tuple. *)
Definition step_finish (r : Obs * R * bool * bool * Info)
  : Py.M W Timestep :=
  let '(obs, rew, terminated, truncated, info) := r in
  let done := terminated || truncated in
  acc <~ getattr_opt "_eval_episode_return" _eval_episode_return ;;
  setattr (set_eval_episode_return (radd acc rew)) ;;;
  info <~ (if done then
             total <~ getattr_opt "_eval_episode_return"
                        _eval_episode_return ;;
             dict_setitem info "eval_episode_return" (VNum total)
           else Py.ret info) ;;
  action_space <~ getattr _action_space ;;
  let action_mask := np_ones (n action_space) in
  let obs :=
    {| observation := obs; action_mask := action_mask; to_play := -1 |} in
  Py.ret {| obs := obs; reward := rew; done := done; info := info |}.

(** [step(self, action)] *)
Definition step (action : Action) : Py.M W Timestep :=
  let action := normalize_action action in
  r <~ game_dot_step action ;;
  step_finish r.

(** [close(self)] *)
Definition close : Py.M W unit :=
  init_flag <~ getattr _init_flag ;;
  (if init_flag then Py.ret tt else Py.ret tt) ;;;
  setattr (set_init_flag false).

(** [seed(self, seed, dynamic_seed=True)], for a seed that
    [np.random.seed] accepts (from 0 to [2^32 - 1]). *)
Definition seed (seed : Z) (dynamic_seed : bool) : Py.M W unit :=
  setattr (set_seed seed) ;;;
  setattr (set_dynamic_seed dynamic_seed) ;;;
  s <~ getattr_opt "_seed" _seed ;;
  np_random_dot_seed s.

(** [enable_save_replay(self, replay_path=None)] *)
Definition enable_save_replay (replay_path : option string)
  : Py.M W unit :=
  let replay_path :=
    match replay_path with None => "./video" | Some p => p end in
  setattr (set_replay_path (Some replay_path)).

(** *** Callers *)

(** A caller that issues one [step()] per action, in order, until one of
    them raises. *)
Fixpoint run_steps (actions : list Action) : Py.M W (list Timestep) :=
  match actions with
  | [] => Py.ret []
  | a :: rest =>
      ts <~ step a ;;
      tss <~ run_steps rest ;;
      Py.ret (ts :: tss)
  end.

(** [close()] called [k] times in a row. *)
Fixpoint close_times (k : nat) : Py.M W unit :=
  match k with
  | O => Py.ret tt
  | S k' => close ;;; close_times k'
  end.

(** The calls a caller can make on an instance, and the world each leaves
    behind (whether the call returned or raised). *)
Inductive Call : Type :=
| CallReset
| CallStep (action : Action)
| CallClose
| CallSeed (seed : Z) (dynamic_seed : bool)
| CallEnableSaveReplay (replay_path : option string).

Definition call (c : Call) (w : W) : W :=
  match c with
  | CallReset => snd (reset w)
  | CallStep action => snd (step action w)
  | CallClose => snd (close w)
  | CallSeed s dynamic_seed => snd (seed s dynamic_seed w)
  | CallEnableSaveReplay replay_path => snd (enable_save_replay replay_path w)
  end.

(** The worlds a program can be in: an instance comes out of the
    constructor, then methods are called on it. *)
Inductive reachable : W → Prop :=
| reachable_new (cfg : Config) (e : Env) (s : option Z) :
    construct cfg = inr e →
    reachable {| self := e; np_random_seed := s |}
| reachable_call (c : Call) (w : W) :
    reachable w → reachable (call c w).

(** The rewards the engine hands back, call by call, while the caller of
    [run_steps] is served: read off the engine's own tuples, up to the first
    call that raises. *)
Fixpoint engine_rewards (actions : list Action) (w : W) : list R :=
  match actions with
  | [] => []
  | a :: rest =>
      match fst (game_step (game (self w)) (normalize_action a)) with
      | inr (_, rew, _, _, _) => rew :: engine_rewards rest (snd (step a w))
      | inl _ => []
      end
  end.

(** The world after [step] has run to its [return]. *)
Definition after_step (g' : G) (total : R) (done : bool) (w : W) : W :=
  with_self
    (λ e, let e' := set_eval_episode_return total (set_game g' e) in
          if done
          then set_game (game_info_setitem g' "eval_episode_return"
                           (VNum total)) e'
          else e')
    w.

(** The timestep [step] returns. *)
Definition timestep_of (w : W) (o : Obs) (rew : R) (done : bool)
    (inf : Info) (total : R) : Timestep :=
  {| obs := {| observation := o;
               action_mask := np_ones (n (_action_space (self w)));
               to_play := -1 |};
     reward := rew;
     done := done;
     info := if done then <["eval_episode_return" := VNum total]> inf
             else inf |}.

(** An observation record that reports every action of the world's action
    space legal, for a single player. *)
Definition all_actions_legal (o : ObservationRecord Obs) (w : W) : Prop :=
  length (action_mask o) = n (_action_space (self w)) ∧
  Forall (λ x, x = 1) (action_mask o) ∧
  to_play o = -1.

End Adapter.

(** ** The rest of the class

    [random_action] draws from the action space with [gym]'s sampler, which
    is library code: [space_sample sp] is the value [sp.sample()] returns and
    the space with its generator moved on. *)
Class Sampler : Type := { space_sample : Discrete → Z * Discrete }.

Section AdapterRest.

Context {R Obs G : Type} {num : Number R} {engine : GameEngine R Obs G}
  {conv : NdConvert Obs} {sampler : Sampler}.

Local Abbreviation Env := (MartisGameEnv R G).
Local Abbreviation W := (World R G).


(** [default_config(cls)], for a class called [name] whose [config]
    attribute is [class_config]: a copy of the class dict as an [EasyDict],
    with [cfg_type] set to the class name followed by ['Dict']. *)
Definition default_config_of (name : string)
    (class_config : gmap string (option string)) : Config :=
  let cfg := class_config in
  let cfg := <["cfg_type" := Some (name +:+ "Dict")]> cfg in
  EasyDict cfg.

(** The properties [observation_space], [action_space], [reward_space] *)
Definition observation_space : Py.M W MultiBinary :=
  getattr _observation_space.

Definition action_space : Py.M W Discrete := getattr _action_space.

Definition reward_space : Py.M W Box := getattr _reward_space.

(** [__repr__(self)] *)
Definition repr : string := "LightZero MartisGame Env".



(** A caller that makes the calls [cs] one after the other. *)
Definition run_calls (cs : list Call) (w : W) : W :=
  fold_left (λ w c, call c w) cs w.

(** [gym] refuses to build an empty space: [Discrete(NUM_ACTIONS)] in the
    constructor and [MultiBinary(MAX_LINES * 64)] in [reset] go through only
    when the engine's two constants are positive. *)
Definition sizes_positive : Prop :=
  (0 < NUM_ACTIONS)%nat ∧ (0 < MAX_LINES)%nat.

(** The seeds [np.random.seed] accepts; it raises [ValueError] on any other
    integer, so [seed] stands for the call with a seed in this range. *)
Definition seed_accepted (s : Z) : bool := bool_decide (0 ≤ s < 2 ^ 32).

(** The calls that only write attributes of the instance which neither
    [step] nor [reset] reads, and nothing outside it.  [seed] is not one of
    them: it reseeds numpy's process-wide generator, which code outside the
    instance may draw from. *)
Definition bookkeeping (c : Call) : bool :=
  match c with
  | CallClose | CallEnableSaveReplay _ => true
  | CallSeed _ _ | CallReset | CallStep _ => false
  end.

(** The number of elements of an array of the given shape. *)
Definition shape_size (sh : list nat) : nat := foldr Nat.mul 1%nat sh.

(** What holds of an instance whatever has been called on it since it was
    built. *)
Record consistent (w : W) : Prop := {
  consistent_init_flag : _init_flag (self w) = false;
  consistent_continuous : _continuous (self w) = false;
  consistent_cfg :
    ∃ v, cfg_getattr (_cfg (self w)) "replay_path" = inr v;
  consistent_action_space :
    _action_space (self w) = {| n := NUM_ACTIONS; np_random := Some 0 |};
  consistent_reward_space :
    _reward_space (self w)
      = {| low := 0; high := 1; box_shape := [1%nat]; dtype := "float32" |};
  consistent_never_reset :
    _eval_episode_return (self w) = None →
    _observation_space (self w) = {| mb_n := 1280 |};
  consistent_once_reset :
    is_Some (_eval_episode_return (self w)) →
    _observation_space (self w) = {| mb_n := MAX_LINES * 64 |};
  consistent_seed_pair :
    _seed (self w) = None ↔ _dynamic_seed (self w) = None
}.

End AdapterRest.

(** ** A small engine to run the adapter on

    A counting game with four actions and integer rewards.  An action must be
    usable as an index (a Python int or a 0-dim array); an episode is over
    after two moves.  The engine owns one [info] dict, made when the game is
    built, and hands out that same object on every step. *)
Module Toy.

Record Game : Type := { turns : nat; the_info : gmap string (PyVal Z) }.

Definition as_index (a : Action) : option Z :=
  match a with
  | PyInt i => Some i
  | NdArray {| shape := []; data := [i] |} => Some i
  | _ => None
  end.

Definition t_new : Game := {| turns := 0; the_info := ∅ |}.

Definition t_reset (g : Game) : Game :=
  {| turns := 0; the_info := the_info g |}.

Definition t_state (g : Game) : list bool := replicate (turns g) true.

Definition t_step (g : Game) (a : Action)
  : (PyExn + (list bool * Z * bool * bool * gmap string (PyVal Z))) * Game :=
  match as_index a with
  | None => (inl (EngineError "TypeError"), g)
  | Some i =>
      if bool_decide (0 ≤ i < 4) then
        let g' := {| turns := S (turns g); the_info := the_info g |} in
        (inr (t_state g', i, bool_decide (2 ≤ turns g')%nat, false,
              the_info g),
         g')
      else (inl (EngineError "IndexError"), g)
  end.

Definition t_info_setitem (g : Game) (k : string) (v : PyVal Z) : Game :=
  {| turns := turns g; the_info := <[k := v]> (the_info g) |}.

(** The engine, for a given value of the module constant [MAX_LINES]. *)
Definition engine (max_lines : nat) : GameEngine Z (list bool) Game :=
  {| NUM_ACTIONS := 4;
     MAX_LINES := max_lines;
     game_new := t_new;
     game_reset := t_reset;
     game_state := t_state;
     game_step := t_step;
     game_info_setitem := t_info_setitem |}.

(** The engine as imported by the adapter module, with [MAX_LINES = 20]. *)
#[global] Instance engine20 : GameEngine Z (list bool) Game := engine 20.

#[global] Instance num : Number Z := {| rzero := 0; radd := Z.add |}.

#[global] Instance conv : NdConvert (list bool) := {| to_ndarray := λ o, o |}.

(** A sampler that draws [state mod n] and moves the state on by one. *)
#[global] Instance sampler : Sampler :=
  {| space_sample := λ sp,
       let state := default 0 (np_random sp) in
       (state `mod` Z.of_nat (n sp),
        {| n := n sp; np_random := Some (state + 1) |}) |}.

(** The world left by a method call. *)
Definition exec {A} (m : Py.M (World Z Game) A) (w : World Z Game)
  : World Z Game := snd (m w).

(** What a constructor call evaluates to: the instance, or the exception. *)
Definition outcome {E A} (r : E + A)
  : match r with inl _ => E | inr _ => A end :=
  match r with inl e => e | inr x => x end.

(** The adapter built from the default configuration. *)
Definition w_new : World Z Game :=
  {| self := outcome (construct default_config); np_random_seed := None |}.

(** ... after its first [reset()] *)
Definition w_reset : World Z Game := exec reset w_new.

(** ... after an episode of two moves and the [reset()] that follows it *)
Definition w_second_episode : World Z Game :=
  exec reset (exec (run_steps [PyInt 1; PyInt 2]) w_reset).

End Toy.

Section AdapterFacts.

Context {R Obs G : Type} {num : Number R} {engine : GameEngine R Obs G}
  {conv : NdConvert Obs}.

Local Abbreviation Env := (MartisGameEnv R G).
Local Abbreviation W := (World R G).
Local Abbreviation Info := (gmap string (PyVal R)).
Local Abbreviation Timestep := (BaseEnvTimestep R Obs).

(** ** What one call of [step] does, case by case *)

(** Run a method body on a given world: unfold the monad and compute. *)
Ltac py_run :=
  unfold Py.bind, getattr_opt, getattr, setattr, Py.get, Py.ret, Py.raise,
    Py.modify in *;
  cbn in *.

Lemma step_finish_unfold (r : Obs * R * bool * bool * Info) (w : W) :
  step_finish r w =
    let '(o, rew, terminated, truncated, inf) := r in
    match _eval_episode_return (self w) with
    | None => (inl (AttributeError "_eval_episode_return"), w)
    | Some acc =>
        let total := radd acc rew in
        let done := terminated || truncated in
        (inr (timestep_of w o rew done inf total),
         after_step (game (self w)) total done w)
    end.
Proof.
  destruct r as [[[[o rew] terminated] truncated] inf].
  destruct w as [e s].
  unfold step_finish, dict_setitem, after_step, timestep_of. py_run.
  destruct (_eval_episode_return e) as [acc|] eqn:Hacc; [|done].
  destruct (terminated || truncated); cbn; [|by destruct e].
  by destruct e.
Qed.

Lemma step_unfold (a : Action) (w : W) :
  step a w =
    match game_step (game (self w)) (normalize_action a) with
    | (inl e, g') => (inl e, with_self (set_game g') w)
    | (inr (o, rew, terminated, truncated, inf), g') =>
        match _eval_episode_return (self w) with
        | None => (inl (AttributeError "_eval_episode_return"),
                   with_self (set_game g') w)
        | Some acc =>
            let total := radd acc rew in
            let done := terminated || truncated in
            (inr (timestep_of w o rew done inf total),
             after_step g' total done w)
        end
    end.
Proof.
  unfold step, Py.bind, game_dot_step.
  destruct (game_step (game (self w)) (normalize_action a)) as [[e|r] g'];
    [done|].
  rewrite step_finish_unfold.
  destruct r as [[[[o rew] terminated] truncated] inf]. cbn.
  destruct (_eval_episode_return (self w)); [|done].
  unfold after_step, timestep_of, with_self; cbn. done.
Qed.

(** A call of [step] that returns has been served by the engine, and found
    the accumulator assigned. *)
Lemma step_returns_inv (a : Action) (w w' : W) (ts : Timestep) :
  step a w = (inr ts, w') →
  ∃ o rew terminated truncated inf g' acc,
    game_step (game (self w)) (normalize_action a)
      = (inr (o, rew, terminated, truncated, inf), g') ∧
    _eval_episode_return (self w) = Some acc ∧
    ts = timestep_of w o rew (terminated || truncated) inf (radd acc rew) ∧
    w' = after_step g' (radd acc rew) (terminated || truncated) w.
Proof.
  rewrite step_unfold.
  destruct (game_step (game (self w)) (normalize_action a))
    as [[e|[[[[o rew] terminated] truncated] inf]] g']; [done|].
  destruct (_eval_episode_return (self w)) as [acc|] eqn:Hacc; [|done].
  cbn. intros [= <- <-]. by exists o, rew, terminated, truncated, inf, g', acc.
Qed.

Lemma reset_unfold (w : W) :
  reset w =
    (inr {| observation := to_ndarray (game_state (game_reset (game (self w))));
            action_mask := np_ones (n (_action_space (self w)));
            to_play := -1 |},
     with_self
       (λ e, set_eval_episode_return rzero
               (set_observation_space {| mb_n := MAX_LINES * 64 |}
                  (set_game (game_reset (game e)) e)))
       w).
Proof. unfold reset, game_dot_reset, game_dot_state, my_space. by py_run. Qed.

Lemma close_unfold (w : W) :
  close w = (inr tt, with_self (set_init_flag false) w).
Proof. unfold close. py_run. by destruct (_init_flag (self w)). Qed.

Lemma seed_unfold (s : Z) (d : bool) (w : W) :
  seed s d w =
    (inr tt,
     {| self := set_dynamic_seed d (set_seed s (self w));
        np_random_seed := Some s |}).
Proof. unfold seed, np_random_dot_seed. by py_run. Qed.

Lemma enable_save_replay_unfold (p : option string) (w : W) :
  enable_save_replay p w =
    (inr tt,
     with_self (set_replay_path (Some (default "./video" p))) w).
Proof. unfold enable_save_replay. py_run. by destruct p. Qed.

(** The world [step] leaves behind, in all three of its outcomes. *)
Lemma step_world (a : Action) (w : W) :
  ∃ g' acc',
    snd (step a w) =
      with_self
        (λ e, {| _cfg := _cfg e; _init_flag := _init_flag e;
                 _continuous := _continuous e;
                 _replay_path := _replay_path e;
                 _observation_space := _observation_space e;
                 _action_space := _action_space e;
                 _reward_space := _reward_space e;
                 game := g'; _eval_episode_return := acc';
                 _seed := _seed e; _dynamic_seed := _dynamic_seed e |})
        w.
Proof.
  rewrite step_unfold.
  destruct (game_step (game (self w)) (normalize_action a))
    as [[e|[[[[o rew] terminated] truncated] inf]] g'].
  - by exists g', (_eval_episode_return (self w)).
  - destruct (_eval_episode_return (self w)) as [acc|] eqn:Hacc.
    + cbn. unfold after_step.
      destruct (terminated || truncated); by eexists _, _.
    + exists g', None. unfold with_self, set_game; cbn. by rewrite Hacc.
Qed.

(** Only the constructor chooses the action space. *)
Lemma call_action_space (c : Call) (w : W) :
  _action_space (self (call c w)) = _action_space (self w).
Proof.
  destruct c; unfold call.
  - by rewrite reset_unfold.
  - by destruct (step_world action w) as (g' & acc' & ->).
  - by rewrite close_unfold.
  - by rewrite seed_unfold.
  - by rewrite enable_save_replay_unfold.
Qed.

Lemma reachable_action_space (w : W) :
  reachable w →
  _action_space (self w) = {| n := NUM_ACTIONS; np_random := Some 0 |}.
Proof.
  induction 1 as [cfg e s Hnew|c w Hw IH].
  - unfold construct in Hnew.
    destruct (cfg_getattr cfg "replay_path"); [done|].
    by injection Hnew as <-.
  - by rewrite call_action_space.
Qed.

(** ** The episode return *)

Lemma run_steps_cons (a : Action) (rest : list Action) (w : W) :
  run_steps (a :: rest) w =
    match step a w with
    | (inr ts, w1) =>
        match run_steps rest w1 with
        | (inr tss, w2) => (inr (ts :: tss), w2)
        | (inl e, w2) => (inl e, w2)
        end
    | (inl e, w1) => (inl e, w1)
    end.
Proof.
  cbn [run_steps]. unfold Py.bind, Py.ret.
  destruct (step a w) as [[e|ts] w1]; [done|].
  by destruct (run_steps rest w1) as [[e|tss] w2].
Qed.

(** From a world where the accumulator holds [acc], a run of [step] calls
    leaves it at [acc] plus the engine's rewards, added in call order. *)
Lemma run_steps_accumulator (actions : list Action) :
  ∀ (w : W) (acc : R),
    _eval_episode_return (self w) = Some acc →
    _eval_episode_return (self (snd (run_steps actions w)))
      = Some (fold_left radd (engine_rewards actions w) acc).
Proof.
  induction actions as [|a rest IH]; intros w acc Hacc; [done|].
  rewrite run_steps_cons. cbn [engine_rewards]. rewrite !step_unfold.
  destruct (game_step (game (self w)) (normalize_action a))
    as [[e|[[[[o rew] terminated] truncated] inf]] g']; [done|].
  rewrite Hacc. cbn.
  set (w1 := after_step g' (radd acc rew) (terminated || truncated) w).
  assert (_eval_episode_return (self w1) = Some (radd acc rew)) as H1.
  { unfold w1, after_step. by destruct (terminated || truncated). }
  specialize (IH w1 _ H1).
  by destruct (run_steps rest w1) as [[e|tss] w2].
Qed.

(** The rewards in the timesteps handed to the caller are the engine's. *)
Lemma run_steps_rewards (actions : list Action) :
  ∀ (w w' : W) (tss : list Timestep),
    run_steps actions w = (inr tss, w') →
    reward <$> tss = engine_rewards actions w ∧
    length tss = length actions.
Proof.
  induction actions as [|a rest IH]; intros w w' tss.
  { by intros [= <- <-]. }
  rewrite run_steps_cons. cbn [engine_rewards]. rewrite !step_unfold.
  destruct (game_step (game (self w)) (normalize_action a))
    as [[e|[[[[o rew] terminated] truncated] inf]] g']; [done|].
  destruct (_eval_episode_return (self w)) as [acc|]; [|done]. cbn.
  set (w1 := after_step g' (radd acc rew) (terminated || truncated) w).
  destruct (run_steps rest w1) as [[e|tss1] w2] eqn:Hrest; [done|].
  intros [= <- <-]. destruct (IH _ _ _ Hrest) as [Hrew Hlen].
  cbn. by rewrite Hrew, Hlen.
Qed.

(** As long as the engine serves every call, so does the adapter. *)
Lemma run_steps_returns (actions : list Action) :
  ∀ (w : W) (acc : R),
    _eval_episode_return (self w) = Some acc →
    length (engine_rewards actions w) = length actions →
    ∃ tss w', run_steps actions w = (inr tss, w').
Proof.
  induction actions as [|a rest IH]; intros w acc Hacc Hlen.
  { by exists [], w. }
  rewrite run_steps_cons. cbn [engine_rewards] in Hlen.
  rewrite !step_unfold in *.
  destruct (game_step (game (self w)) (normalize_action a))
    as [[e|[[[[o rew] terminated] truncated] inf]] g']; [done|].
  rewrite Hacc in *. cbn in *.
  set (w1 := after_step g' (radd acc rew) (terminated || truncated) w) in *.
  assert (_eval_episode_return (self w1) = Some (radd acc rew)) as H1.
  { unfold w1, after_step. by destruct (terminated || truncated). }
  destruct (IH w1 _ H1) as (tss & w2 & ->); [lia|]. by eexists _, _.
Qed.

(** C1. With engine constants that let [reset()] build its space, the
    episode-return accumulator is 0 right after every [reset()]; after any
    sequence of [step()] calls that follows a [reset()] it is the sum, in
    call order, of the rewards the engine returned for those steps.  The
    calls return as long as the engine serves them, and the rewards the
    caller sees are the engine's. *)
Theorem episode_return_is_sum_of_rewards (w : W) (actions : list Action) :
  sizes_positive →
  let w0 := snd (reset w) in
  (∃ o, fst (reset w) = inr o) ∧
  _eval_episode_return (self w0) = Some rzero ∧
  _eval_episode_return (self (snd (run_steps actions w0)))
    = Some (fold_left radd (engine_rewards actions w0) rzero) ∧
  (length (engine_rewards actions w0) = length actions →
   ∃ tss w', run_steps actions w0 = (inr tss, w')) ∧
  (∀ tss w', run_steps actions w0 = (inr tss, w') →
     reward <$> tss = engine_rewards actions w0 ∧
     length tss = length actions).
Proof.
  intros _ w0.
  assert (_eval_episode_return (self w0) = Some rzero) as H0.
  { unfold w0. by rewrite reset_unfold. }
  split_and!.
  - rewrite reset_unfold. by eexists.
  - done.
  - by apply run_steps_accumulator.
  - by apply run_steps_returns with rzero.
  - intros tss w' Hrun. by eapply run_steps_rewards.
Qed.

(** ** One call of [step] *)

(** C2. For every call of [step()], the [done] flag of the timestep is the
    logical OR of the [terminated] and [truncated] flags the engine returned
    for that step: whenever the engine returns its tuple, [step] returns a
    timestep with that flag, and a timestep is only ever returned that way. *)
Theorem done_is_terminated_or_truncated (a : Action) (w : W) :
  (∀ o rew terminated truncated inf g' acc,
     game_step (game (self w)) (normalize_action a)
       = (inr (o, rew, terminated, truncated, inf), g') →
     _eval_episode_return (self w) = Some acc →
     ∃ ts w', step a w = (inr ts, w') ∧ done ts = terminated || truncated) ∧
  (∀ ts w',
     step a w = (inr ts, w') →
     ∃ o rew terminated truncated inf g',
       game_step (game (self w)) (normalize_action a)
         = (inr (o, rew, terminated, truncated, inf), g') ∧
       done ts = terminated || truncated).
Proof.
  split.
  - intros o rew terminated truncated inf g' acc Hg Hacc.
    rewrite step_unfold, Hg, Hacc. by eexists _, _.
  - intros ts w' Hstep.
    apply step_returns_inv in Hstep
      as (o & rew & terminated & truncated & inf & g' & acc
          & Hg & _ & -> & _).
    by exists o, rew, terminated, truncated, inf, g'.
Qed.

(** C3, amended. When the engine returns its tuple, [step] returns; if [done]
    is true the returned info holds 'eval_episode_return', and its value is
    the accumulator including this step's reward; if [done] is false the
    returned info is the engine's info as it is, and no other key is ever
    touched.  So for an engine info that does not carry the key already, the
    key is present if and only if [done] is true. *)
Theorem eval_episode_return_key (a : Action) (w : W)
    (o : Obs) (rew : R) (terminated truncated : bool) (inf : Info) (g' : G)
    (acc : R) :
  game_step (game (self w)) (normalize_action a)
    = (inr (o, rew, terminated, truncated, inf), g') →
  _eval_episode_return (self w) = Some acc →
  ∃ ts w',
    step a w = (inr ts, w') ∧
    _eval_episode_return (self w') = Some (radd acc rew) ∧
    (done ts = true →
     info ts !! "eval_episode_return" = Some (VNum (radd acc rew))) ∧
    (done ts = false → info ts = inf) ∧
    (∀ k, k ≠ "eval_episode_return" → info ts !! k = inf !! k) ∧
    (inf !! "eval_episode_return" = None →
     (is_Some (info ts !! "eval_episode_return") ↔ done ts = true)).
Proof.
  intros Hg Hacc. rewrite step_unfold, Hg, Hacc. eexists _, _.
  split; [done|]. unfold after_step, timestep_of; cbn.
  destruct (terminated || truncated); cbn; split_and!; try done.
  - intros _. apply lookup_insert_eq.
  - intros k Hk. by apply lookup_insert_ne.
  - intros _. split; [done|]. intros _. rewrite lookup_insert_eq. by eexists.
  - intros ->. split; [by intros [? ?]|done].
Qed.

(** C4. Every observation record returned by [reset()] or [step()] has an
    action mask as long as the action space is large, all of whose entries
    are 1, and [to_play = -1]: whatever [reset()] or [step()] returns is such
    a record, and [reset()] does return one when the engine constants let it
    build its space.  On an instance that came out of the constructor that
    length is the engine's [NUM_ACTIONS]. *)
Theorem action_mask_all_ones (w : W) :
  (∀ o w', reset w = (inr o, w') → all_actions_legal o w') ∧
  (sizes_positive →
   ∃ o w', reset w = (inr o, w') ∧ all_actions_legal o w') ∧
  (∀ a ts w', step a w = (inr ts, w') → all_actions_legal (obs ts) w') ∧
  (reachable w → n (_action_space (self w)) = NUM_ACTIONS).
Proof.
  assert (∀ o w', reset w = (inr o, w') → all_actions_legal o w') as Hreset.
  { intros o w'. rewrite reset_unfold. intros [= <- <-].
    unfold all_actions_legal, np_ones; cbn.
    rewrite length_replicate. split_and!; try done.
    apply Forall_forall. by intros x ->%elem_of_replicate_inv. }
  split_and!.
  - exact Hreset.
  - intros _. destruct (reset w) as [[e|o] w'] eqn:Hr.
    { by rewrite reset_unfold in Hr. }
    exists o, w'. split; [done|]. by apply Hreset.
  - intros a ts w' Hstep.
    apply step_returns_inv in Hstep
      as (o & rew & terminated & truncated & inf & g' & acc
          & _ & _ & -> & ->).
    unfold all_actions_legal, timestep_of, after_step, np_ones; cbn.
    rewrite length_replicate. split_and!.
    + by destruct (terminated || truncated).
    + apply Forall_forall. by intros x ->%elem_of_replicate_inv.
    + done.
  - intros Hw. by rewrite reachable_action_space.
Qed.

(** ** Action normalization *)

Lemma normalize_action_shape_1 (nd : ndarray) :
  shape nd = [1%nat] →
  normalize_action (NdArray nd) = NdArray {| shape := []; data := data nd |}.
Proof.
  intros Hshape. unfold normalize_action, squeeze.
  rewrite bool_decide_eq_true_2 by done. by rewrite Hshape.
Qed.

Lemma normalize_action_other (a : Action) :
  (∀ nd, a = NdArray nd → shape nd ≠ [1%nat]) →
  normalize_action a = a.
Proof.
  intros Hother. destruct a as [i|l|nd]; cbn; [done..|].
  rewrite bool_decide_eq_false_2; [done|]. by apply Hother.
Qed.

(** C5, amended. From one and the same world, [step] on the array of shape
    [(1,)] that holds [i] does what [step] on the 0-dim array holding [i]
    does; and where the engine's [step] does not tell that 0-dim array from
    the int [i], [step(i)] and [step] on the array of shape [(1,)] return
    identical timesteps and leave identical worlds. *)
Theorem step_scalar_vs_length_1_array (w : W) (i : Z) :
  step (NdArray {| shape := [1%nat]; data := [i] |}) w
    = step (NdArray {| shape := []; data := [i] |}) w ∧
  (game_step (game (self w)) (PyInt i)
     = game_step (game (self w)) (NdArray {| shape := []; data := [i] |}) →
   step (PyInt i) w = step (NdArray {| shape := [1%nat]; data := [i] |}) w).
Proof.
  split.
  - by rewrite !step_unfold.
  - intros Hengine. rewrite !step_unfold. cbn. by rewrite Hengine.
Qed.


(** ** Construction *)

(** C6. Constructing the adapter from a configuration without a
    [replay_path] field raises (an [AttributeError]) and yields no instance;
    the field is read on every construction: an instance that was built
    holds the value the configuration had for it. *)
Theorem construct_requires_replay_path (cfg : Config) :
  (cfg_items cfg !! "replay_path" = None →
   construct cfg = inl (AttributeError "replay_path")) ∧
  (∀ e : Env, construct cfg = inr e →
     ∃ v, cfg_items cfg !! "replay_path" = Some v ∧ _replay_path e = v).
Proof.
  unfold construct. split.
  - intros Hmissing. destruct cfg as [items|items]; cbn in *; [done|].
    by rewrite Hmissing.
  - intros e. destruct cfg as [items|items]; cbn; [done|].
    destruct (items !! "replay_path") as [v|]; [|done].
    intros [= <-]. by exists v.
Qed.

(** C7, amended. With engine constants that let the spaces be built, the
    observation space declared by the constructor is a binary vector of the
    literal size 1280; every [reset()] declares it anew as a binary vector
    of size [MAX_LINES * 64]; the two sizes differ exactly when [MAX_LINES]
    is not 20. *)
Theorem observation_space_sizes (cfg : Config) (e : Env) (w : W) :
  sizes_positive →
  construct cfg = inr e →
  _observation_space e = {| mb_n := 1280 |} ∧
  _observation_space (self (snd (reset w)))
    = {| mb_n := MAX_LINES * 64 |} ∧
  (mb_n (_observation_space e)
     ≠ mb_n (_observation_space (self (snd (reset w))))
   ↔ MAX_LINES ≠ 20%nat).
Proof.
  intros _ Hnew. unfold construct in Hnew.
  destruct (cfg_getattr cfg "replay_path"); [done|].
  injection Hnew as <-. rewrite reset_unfold. cbn.
  split_and!; [done..|]. lia.
Qed.

(** ** Closing *)

Lemma close_times_S (k : nat) (w : W) :
  close_times (S k) w = close_times k (with_self (set_init_flag false) w).
Proof. cbn [close_times]. unfold Py.bind. by rewrite close_unfold. Qed.

Lemma close_times_unfold (k : nat) (w : W) :
  close_times (S k) w = (inr tt, with_self (set_init_flag false) w).
Proof.
  revert w. induction k as [|k IH]; intros w; rewrite close_times_S; [done|].
  rewrite IH. by destruct w.
Qed.

(** C8. [close()] never raises, however often it is called and whether or
    not the instance was initialized; after every call the initialized flag
    is [False]. *)
Theorem close_never_raises (w : W) (k : nat) :
  fst (close w) = inr tt ∧
  _init_flag (self (snd (close w))) = false ∧
  fst (close_times (S k) w) = inr tt ∧
  _init_flag (self (snd (close_times (S k) w))) = false.
Proof. by rewrite close_unfold, close_times_unfold. Qed.

(** ** Frame *)

(** C10. A call of [step()], whether it returns or raises, leaves the
    replay path, the three spaces, the stored seed, the dynamic-seed flag
    and the initialized flag of the instance as they were. *)
Theorem step_frame (a : Action) (w : W) :
  let w' := snd (step a w) in
  _replay_path (self w') = _replay_path (self w) ∧
  _observation_space (self w') = _observation_space (self w) ∧
  _action_space (self w') = _action_space (self w) ∧
  _reward_space (self w') = _reward_space (self w) ∧
  _seed (self w') = _seed (self w) ∧
  _dynamic_seed (self w') = _dynamic_seed (self w) ∧
  _init_flag (self w') = _init_flag (self w) ∧
  _cfg (self w') = _cfg (self w) ∧
  _continuous (self w') = _continuous (self w) ∧
  np_random_seed w' = np_random_seed w.
Proof. cbn. by destruct (step_world a w) as (g' & acc' & ->). Qed.

End AdapterFacts.

(** ** The adapter run on the toy engine *)

(** The default configuration builds an instance. *)
Lemma toy_construct_default :
  construct default_config = inr (self Toy.w_new).
Proof. reflexivity. Qed.

(** C1 on a run: after [reset()] and the moves 1 and 2, both calls have
    returned and the accumulator holds [0 + 1 + 2]. *)
Lemma episode_return_is_sum_of_rewards_witness :
  sizes_positive (engine := Toy.engine20) ∧
  length (engine_rewards [PyInt 1; PyInt 2] Toy.w_reset) = 2%nat ∧
  (∃ tss w', run_steps [PyInt 1; PyInt 2] Toy.w_reset = (inr tss, w')) ∧
  _eval_episode_return
    (self (snd (run_steps [PyInt 1; PyInt 2] Toy.w_reset))) = Some 3.
Proof.
  assert (sizes_positive (engine := Toy.engine20)) as Hpos
    by (split; apply Nat.lt_0_succ).
  destruct (episode_return_is_sum_of_rewards Toy.w_new [PyInt 1; PyInt 2]
              Hpos)
    as (_ & _ & Hsum & Hreturns & _).
  split; [exact Hpos|]. split; [reflexivity|].
  split; [apply Hreturns; reflexivity|exact Hsum].
Defined.

(** C2 on a call: the second move ends the episode. *)
Lemma done_is_terminated_or_truncated_witness :
  ∃ ts w',
    step (PyInt 2) (call (CallStep (PyInt 1)) Toy.w_reset) = (inr ts, w') ∧
    done ts = true || false.
Proof.
  eapply (proj1 (done_is_terminated_or_truncated (PyInt 2)
                   (call (CallStep (PyInt 1)) Toy.w_reset))).
  - reflexivity.
  - reflexivity.
Defined.

(** C3 as stated fails.  The toy engine hands out one [info] dict for its
    whole life.  The step that ended the first episode wrote
    'eval_episode_return' into it; the first step of the second episode
    returns that dict again, with the key, and [done] false. *)
Lemma info_key_present_without_done :
  ¬ (∀ ts w',
       step (PyInt 1) Toy.w_second_episode = (inr ts, w') →
       (is_Some (info ts !! "eval_episode_return") ↔ done ts = true)).
Proof.
  intros Hclaim.
  assert (∃ ts w', step (PyInt 1) Toy.w_second_episode = (inr ts, w') ∧
                   info ts !! "eval_episode_return" = Some (VNum 3) ∧
                   done ts = false) as (ts & w' & Hstep & Hkey & Hdone).
  { eexists _, _. split; [reflexivity|]. split; reflexivity. }
  apply Hclaim in Hstep as [Hstep _].
  rewrite Hdone in Hstep. discriminate Hstep. by eexists.
Qed.

(** C3, amended, on two calls: the step that ends the first episode reports
    the return, and the first step of an episode does not. *)
Lemma eval_episode_return_key_witness :
  (∃ ts w',
     step (PyInt 2) (call (CallStep (PyInt 1)) Toy.w_reset) = (inr ts, w') ∧
     done ts = true ∧
     info ts !! "eval_episode_return" = Some (VNum 3)) ∧
  (∃ ts w',
     step (PyInt 1) Toy.w_reset = (inr ts, w') ∧
     (is_Some (info ts !! "eval_episode_return") ↔ done ts = true)).
Proof.
  split.
  - edestruct (eval_episode_return_key (PyInt 2)
                 (call (CallStep (PyInt 1)) Toy.w_reset))
      as (ts & w' & Hstep & _ & Hdone & _); [reflexivity..|].
    exists ts, w'. split; [exact Hstep|].
    assert (done ts = true) as Hd.
    { injection Hstep as <- _. reflexivity. }
    split; [exact Hd|exact (Hdone Hd)].
  - edestruct (eval_episode_return_key (PyInt 1) Toy.w_reset)
      as (ts & w' & Hstep & _ & _ & _ & _ & Hiff); [reflexivity..|].
    exists ts, w'. split; [exact Hstep|]. apply Hiff. reflexivity.
Defined.

(** C4 on the toy engine, which has four actions. *)
Lemma action_mask_all_ones_witness :
  sizes_positive (engine := Toy.engine20) ∧
  (∃ o w', reset Toy.w_reset = (inr o, w') ∧ all_actions_legal o w') ∧
  reachable Toy.w_reset ∧
  n (_action_space (self Toy.w_reset)) = 4%nat ∧
  ∃ ts w',
    step (PyInt 1) Toy.w_reset = (inr ts, w') ∧
    all_actions_legal (obs ts) w' ∧
    action_mask (obs ts) = [1; 1; 1; 1].
Proof.
  assert (reachable Toy.w_reset) as Hreach.
  { apply (reachable_call CallReset).
    apply (reachable_new default_config). reflexivity. }
  assert (sizes_positive (engine := Toy.engine20)) as Hpos
    by (split; apply Nat.lt_0_succ).
  destruct (action_mask_all_ones Toy.w_reset) as (_ & Hreset & Hstep & Hn).
  split; [exact Hpos|]. split; [exact (Hreset Hpos)|].
  split; [exact Hreach|]. split; [exact (Hn Hreach)|].
  eexists _, _. split; [reflexivity|].
  split; [apply (Hstep (PyInt 1)); reflexivity|reflexivity].
Defined.

(** C5 as stated fails: the list [[3]] is not an ndarray, so it reaches the
    engine as a list.  The toy engine serves the int 3 and rejects the list,
    as an engine that indexes with its action does. *)
Lemma step_int_and_list_differ :
  (∃ ts, fst (step (PyInt 3) Toy.w_reset) = inr ts) ∧
  fst (step (PyList [3]) Toy.w_reset) = inl (EngineError "TypeError") ∧
  step (PyInt 3) Toy.w_reset ≠ step (PyList [3]) Toy.w_reset.
Proof.
  split; [by eexists|]. split; [reflexivity|].
  intros Heq. apply (f_equal fst) in Heq. discriminate Heq.
Qed.

(** C5, amended, on the toy engine, which takes a 0-dim array for the int
    it holds. *)
Lemma step_scalar_vs_length_1_array_witness :
  game_step (game (self Toy.w_reset)) (PyInt 3)
    = game_step (game (self Toy.w_reset))
        (NdArray {| shape := []; data := [3] |}) ∧
  step (PyInt 3) Toy.w_reset
    = step (NdArray {| shape := [1%nat]; data := [3] |}) Toy.w_reset.
Proof.
  split; [reflexivity|].
  apply (proj2 (step_scalar_vs_length_1_array Toy.w_reset 3)). reflexivity.
Defined.


(** C6 on a configuration that only names the environment. *)
Lemma construct_requires_replay_path_witness :
  cfg_items (EasyDict {["env_id" := Some "MartisGame-v0"]})
    !! "replay_path" = None ∧
  construct (engine := Toy.engine20)
    (EasyDict {["env_id" := Some "MartisGame-v0"]})
    = inl (AttributeError "replay_path").
Proof.
  split; [reflexivity|].
  apply (proj1 (construct_requires_replay_path
                  (EasyDict {["env_id" := Some "MartisGame-v0"]}))).
  reflexivity.
Defined.

(** C7 as stated fails when the engine module has [MAX_LINES = 20]: the
    constructor's 1280 and the [20 * 64] of [reset()] are the same size. *)
Lemma observation_space_sizes_coincide :
  ¬ (mb_n (_observation_space (self Toy.w_new)) = 1280%nat ∧
     mb_n (_observation_space (self (snd (reset Toy.w_new))))
       = (MAX_LINES * 64)%nat ∧
     mb_n (_observation_space (self Toy.w_new))
       ≠ mb_n (_observation_space (self (snd (reset Toy.w_new))))).
Proof. intros (_ & _ & Hne). apply Hne. reflexivity. Qed.

(** C7, amended, on an engine module with [MAX_LINES = 16]: the two declared
    sizes are 1280 and 1024. *)
Lemma observation_space_sizes_witness :
  sizes_positive (engine := Toy.engine 16) ∧
  construct (engine := Toy.engine 16) default_config = inr (self Toy.w_new) ∧
  _observation_space (self Toy.w_new) = {| mb_n := 1280 |} ∧
  _observation_space
    (self (snd (reset (engine := Toy.engine 16) Toy.w_new)))
    = {| mb_n := 1024 |} ∧
  mb_n (_observation_space (self Toy.w_new))
    ≠ mb_n (_observation_space
              (self (snd (reset (engine := Toy.engine 16) Toy.w_new)))).
Proof.
  assert (sizes_positive (engine := Toy.engine 16)) as Hpos
    by (split; apply Nat.lt_0_succ).
  destruct (observation_space_sizes (engine := Toy.engine 16)
              default_config (self Toy.w_new) Toy.w_new Hpos eq_refl)
    as (Hnew & Hreset & Hiff).
  split; [exact Hpos|].
  split; [reflexivity|]. split; [exact Hnew|]. split; [exact Hreset|].
  apply Hiff. discriminate.
Defined.

(** * The methods the episode does not depend on, and how they compose *)

Section AdapterRestFacts.

Context {R Obs G : Type} {num : Number R} {engine : GameEngine R Obs G}
  {conv : NdConvert Obs} {sampler : Sampler}.

Local Abbreviation Env := (MartisGameEnv R G).
Local Abbreviation W := (World R G).
Local Abbreviation Info := (gmap string (PyVal R)).
Local Abbreviation Timestep := (BaseEnvTimestep R Obs).

(** ** Replay path and seed *)

(** [enable_save_replay] always returns.  Without a path it stores
    ['./video'], with a path it stores that path, so the replay path is never
    [None] afterwards; of two calls in a row only the second counts. *)
Theorem enable_save_replay_last_wins (p1 p2 : option string) (w : W) :
  fst (enable_save_replay p2 w) = inr tt ∧
  _replay_path (self (snd (enable_save_replay None w))) = Some "./video" ∧
  (∀ p, _replay_path (self (snd (enable_save_replay (Some p) w))) = Some p) ∧
  is_Some (_replay_path (self (snd (enable_save_replay p2 w)))) ∧
  snd (enable_save_replay p2 (snd (enable_save_replay p1 w)))
    = snd (enable_save_replay p2 w).
Proof.
  rewrite !enable_save_replay_unfold. cbn. by split_and!.
Qed.

(** With a seed numpy accepts, [seed] returns even on an instance that has
    no [_seed] attribute yet; it stores the seed and the flag, seeds numpy's
    global generator with the same seed and leaves the episode alone; of two
    such calls in a row only the second counts. *)
Theorem seed_last_wins (s1 s2 : Z) (d1 d2 : bool) (w : W) :
  seed_accepted s1 = true →
  seed_accepted s2 = true →
  let w' := snd (seed s2 d2 w) in
  fst (seed s2 d2 w) = inr tt ∧
  _seed (self w') = Some s2 ∧
  _dynamic_seed (self w') = Some d2 ∧
  np_random_seed w' = Some s2 ∧
  _eval_episode_return (self w') = _eval_episode_return (self w) ∧
  game (self w') = game (self w) ∧
  snd (seed s2 d2 (snd (seed s1 d1 w))) = w'.
Proof. intros _ _ w'. subst w'. by rewrite !seed_unfold. Qed.

(** [close] and [enable_save_replay] do not disturb an episode: a [step] or
    a [reset] made after one of them gives the caller what it would have
    given before it, and the two orders leave the same world. *)
Theorem bookkeeping_commutes (c : Call) (a : Action) (w : W) :
  sizes_positive →
  bookkeeping c = true →
  step a (call c w) = (fst (step a w), call c (snd (step a w))) ∧
  reset (call c w) = (fst (reset w), call c (snd (reset w))).
Proof.
  intros _ Hc. rewrite !reset_unfold, !step_unfold.
  destruct c as [| |  |s d|p]; try done; unfold call.
  - rewrite !close_unfold. cbn.
    destruct (game_step (game (self w)) (normalize_action a))
      as [[e|[[[[o rew] terminated] truncated] inf]] g']; [done|].
    destruct (_eval_episode_return (self w)) as [acc|]; [|done].
    cbn. unfold after_step. by destruct (terminated || truncated).
  - rewrite !enable_save_replay_unfold. cbn.
    destruct (game_step (game (self w)) (normalize_action a))
      as [[e|[[[[o rew] terminated] truncated] inf]] g']; [done|].
    destruct (_eval_episode_return (self w)) as [acc|]; [|done].
    cbn. unfold after_step. by destruct (terminated || truncated).
Qed.

(** ** When [step] raises *)

(** [step] raises in two cases only.  If the engine raises, its exception
    reaches the caller as it is and the episode return is untouched.  If the
    engine returns but [reset()] has never assigned the episode return,
    [step] raises [AttributeError] -- after the engine has made its move.  In
    both cases the instance holds the engine state the call left behind. *)
Theorem step_raises_iff (a : Action) (w : W) :
  let r := game_step (game (self w)) (normalize_action a) in
  ((∃ e, fst (step a w) = inl e) ↔
   (∃ e, fst r = inl e) ∨ _eval_episode_return (self w) = None) ∧
  (∀ e, fst r = inl e → fst (step a w) = inl e) ∧
  (∀ tuple, fst r = inr tuple → _eval_episode_return (self w) = None →
     fst (step a w) = inl (AttributeError "_eval_episode_return")) ∧
  (∀ e, fst (step a w) = inl e →
     snd (step a w) = with_self (set_game (snd r)) w ∧
     _eval_episode_return (self (snd (step a w)))
       = _eval_episode_return (self w)).
Proof.
  intros r. subst r. rewrite step_unfold.
  destruct (game_step (game (self w)) (normalize_action a))
    as [[e|[[[[o rew] terminated] truncated] inf]] g']; cbn.
  - split_and!; try done.
    + split; [intros _; left|]; by eexists.
    + by intros e' [= <-].
  - destruct (_eval_episode_return (self w)) as [acc|] eqn:Hacc; cbn.
    + split_and!; try done.
      split; [by intros [e He]|]. by intros [[e He]|].
    + split_and!; try done.
      split; [by right|]. by eexists.
Qed.

Lemma call_keeps_missing_return (c : Call) (w : W) :
  c ≠ CallReset →
  _eval_episode_return (self w) = None →
  _eval_episode_return (self (call c w)) = None.
Proof.
  intros Hc Hnone. destruct c as [|a| |s d|p]; [done|..]; unfold call.
  - destruct (step_raises_iff a w) as (Hiff & _ & _ & Hworld).
    destruct (proj2 Hiff (or_intror Hnone)) as [e He].
    destruct (Hworld e He) as [_ ->]. done.
  - by rewrite close_unfold.
  - by rewrite seed_unfold.
  - by rewrite enable_save_replay_unfold.
Qed.

Lemma run_calls_keeps_missing_return (cs : list Call) :
  ∀ w : W,
    CallReset ∉ cs →
    _eval_episode_return (self w) = None →
    _eval_episode_return (self (run_calls cs w)) = None.
Proof.
  induction cs as [|c cs IH]; intros w Hcs Hnone; [done|].
  apply not_elem_of_cons in Hcs as [Hc Hcs].
  apply IH; [done|]. by apply call_keeps_missing_return.
Qed.

(** No [step] returns before the first [reset]: on an instance that came out
    of the constructor and on which [reset] has not been called, whatever
    else has, every [step] raises. *)
Theorem step_before_reset_raises (cfg : Config) (e : Env) (s : option Z)
    (cs : list Call) (a : Action) :
  construct cfg = inr e →
  CallReset ∉ cs →
  ∃ exn, fst (step a (run_calls cs {| self := e; np_random_seed := s |}))
         = inl exn.
Proof.
  intros Hnew Hcs.
  apply (proj1 (step_raises_iff a _)). right.
  apply run_calls_keeps_missing_return; [done|].
  unfold construct in Hnew.
  destruct (cfg_getattr cfg "replay_path"); [done|]. by injection Hnew as <-.
Qed.

Lemma call_keeps_return (c : Call) (w : W) :
  is_Some (_eval_episode_return (self w)) →
  is_Some (_eval_episode_return (self (call c w))).
Proof.
  intros [acc Hacc]. destruct c as [|a| |s d|p]; unfold call.
  - by rewrite reset_unfold.
  - rewrite step_unfold.
    destruct (game_step (game (self w)) (normalize_action a))
      as [[e|[[[[o rew] terminated] truncated] inf]] g']; cbn.
    { by rewrite Hacc. }
    rewrite Hacc. cbn. unfold after_step.
    by destruct (terminated || truncated).
  - rewrite close_unfold. cbn. by rewrite Hacc.
  - rewrite seed_unfold. cbn. by rewrite Hacc.
  - rewrite enable_save_replay_unfold. cbn. by rewrite Hacc.
Qed.

Lemma run_calls_keeps_return (cs : list Call) :
  ∀ w : W,
    is_Some (_eval_episode_return (self w)) ∨ CallReset ∈ cs →
    is_Some (_eval_episode_return (self (run_calls cs w))).
Proof.
  induction cs as [|c cs IH]; intros w Hw.
  { destruct Hw as [Hw|Hin]; [done|]. by apply elem_of_nil in Hin. }
  cbn. apply IH. destruct Hw as [Hw|Hin].
  - left. by apply call_keeps_return.
  - apply elem_of_cons in Hin as [<-|Hin]; [|by right].
    left. unfold call. by rewrite reset_unfold.
Qed.

(** Once [reset] has been called on an instance, whatever else was called
    before or after it, a [step] raises only if the engine does: it returns
    a timestep exactly when [Game.step] returns its tuple. *)
Theorem step_after_reset_raises_only_with_engine (w : W) (cs : list Call)
    (a : Action) :
  sizes_positive →
  CallReset ∈ cs →
  let w' := run_calls cs w in
  (∃ ts, fst (step a w') = inr ts) ↔
  (∃ tuple,
     fst (game_step (game (self w')) (normalize_action a)) = inr tuple).
Proof.
  intros _ Hcs w'.
  destruct (run_calls_keeps_return cs w (or_intror Hcs)) as [acc Hacc].
  fold w' in Hacc. rewrite step_unfold.
  destruct (game_step (game (self w')) (normalize_action a))
    as [[e|[[[[o rew] terminated] truncated] inf]] g']; cbn.
  - split; by intros [? ?].
  - rewrite Hacc. cbn. split; intros _; by eexists.
Qed.

(** A [step] that returns hands on the engine's observation and reward as
    they are (no conversion, unlike [reset]), and leaves the engine as
    [Game.step] left it, but for the one item it writes into the engine's
    [info] dict when the episode is over. *)
Theorem step_passes_engine_results_through (a : Action) (w w' : W)
    (ts : Timestep) (o : Obs) (rew : R) (terminated truncated : bool)
    (inf : Info) (g' : G) :
  step a w = (inr ts, w') →
  game_step (game (self w)) (normalize_action a)
    = (inr (o, rew, terminated, truncated, inf), g') →
  observation (obs ts) = o ∧
  reward ts = rew ∧
  (done ts = false → game (self w') = g') ∧
  (done ts = true →
   ∃ total, _eval_episode_return (self w') = Some total ∧
            game (self w')
              = game_info_setitem g' "eval_episode_return" (VNum total)).
Proof.
  intros Hstep Hg. rewrite step_unfold, Hg in Hstep.
  destruct (_eval_episode_return (self w)) as [acc|]; [|done].
  cbn in Hstep. injection Hstep as <- <-. cbn. unfold after_step.
  destruct (terminated || truncated); cbn; split_and!; try done.
  intros _. by eexists.
Qed.

(** ** What every instance keeps *)

(** Closes the fields of [consistent] once the world is explicit. *)
Ltac consistent_fields :=
  split; cbn in *;
  try done; try (by eauto); try (by intros [? ?]); try (by intros ? [= <-]).

Lemma construct_consistent (cfg : Config) (e : Env) (s : option Z) :
  construct cfg = inr e →
  consistent {| self := e; np_random_seed := s |}.
Proof.
  unfold construct.
  destruct (cfg_getattr cfg "replay_path") as [|v] eqn:Hcfg; [done|].
  intros [= <-]. consistent_fields.
Qed.

Lemma call_consistent (c : Call) (w : W) :
  consistent w → consistent (call c w).
Proof.
  intros [Hinit Hcont Hcfg Hact Hrew Hnever Honce Hpair].
  destruct c as [|a| |s d|p]; unfold call.
  - rewrite reset_unfold. consistent_fields.
  - rewrite step_unfold.
    destruct (game_step (game (self w)) (normalize_action a))
      as [[e|[[[[o rew] terminated] truncated] inf]] g1].
    { consistent_fields. }
    destruct (_eval_episode_return (self w)) as [acc|] eqn:Hacc.
    + cbn. unfold after_step.
      destruct (terminated || truncated); consistent_fields.
    + consistent_fields. rewrite Hacc. by intros [? ?].
  - rewrite close_unfold. consistent_fields.
  - rewrite seed_unfold. consistent_fields.
  - rewrite enable_save_replay_unfold. consistent_fields.
Qed.

(** Whatever is called on an instance after the constructor built it
    ([reset], [step], [close], [seed], [enable_save_replay], in any order and
    whether they return or raise): the initialized flag is never [True]; the
    action space stays [Discrete(NUM_ACTIONS)] seeded with 0 and the reward
    space the unit box; the observation space is the constructor's 1280-bit
    vector until the first [reset] and the [MAX_LINES * 64]-bit one from then
    on; [_seed] and [_dynamic_seed] exist together. *)
Theorem reachable_consistent (w : W) : reachable w → consistent w.
Proof.
  induction 1 as [cfg e s Hnew|c w Hw IH].
  - by apply (construct_consistent cfg).
  - by apply call_consistent.
Qed.

(** On such an instance [close] changes nothing at all: the flag it clears
    is never set. *)
Theorem close_changes_nothing (w : W) :
  reachable w → close w = (inr tt, w).
Proof.
  intros [Hinit _ _ _ _ _ _ _]%reachable_consistent.
  rewrite close_unfold. destruct w as [e s]. destruct e. cbn in *.
  by subst.
Qed.

(** ** What [reset] leaves alone *)

(** With positive engine constants, [reset] returns the converted state of the engine after the
    engine's own reset.  It does not reseed: the stored seed, the flag and
    numpy's global seed stay, and so do the replay path, the action and
    reward spaces, the initialized flag and the configuration.  Calling it
    again declares the same observation space. *)
Theorem reset_frame (w : W) :
  sizes_positive →
  let w' := snd (reset w) in
  (∃ o, fst (reset w) = inr o ∧
        observation o = to_ndarray (game_state (game_reset (game (self w))))) ∧
  game (self w') = game_reset (game (self w)) ∧
  _seed (self w') = _seed (self w) ∧
  _dynamic_seed (self w') = _dynamic_seed (self w) ∧
  np_random_seed w' = np_random_seed w ∧
  _replay_path (self w') = _replay_path (self w) ∧
  _action_space (self w') = _action_space (self w) ∧
  _reward_space (self w') = _reward_space (self w) ∧
  _init_flag (self w') = _init_flag (self w) ∧
  _cfg (self w') = _cfg (self w) ∧
  _observation_space (self (snd (reset w'))) = _observation_space (self w').
Proof.
  intros _ w'. subst w'. rewrite !reset_unfold. cbn.
  split_and!; try done. by eexists.
Qed.

(** ** Construction and the default configuration *)

(** With positive engine constants, the constructor returns an instance
    exactly for an [EasyDict] that has
    the key [replay_path] (a plain [dict], such as the default argument [{}],
    always makes it raise, with or without the key).  The instance keeps the
    configuration it was given, and has no episode return and no seed yet. *)
Theorem construct_returns_iff (cfg : Config) :
  sizes_positive →
  ((∃ e : Env, construct cfg = inr e) ↔
   ∃ items v, cfg = EasyDict items ∧ items !! "replay_path" = Some v) ∧
  (∀ items,
     construct (G := G) (PlainDict items)
       = inl (AttributeError "replay_path")) ∧
  (∀ e : Env, construct cfg = inr e →
     _cfg e = cfg ∧ game e = game_new ∧
     _eval_episode_return e = None ∧
     _seed e = None ∧ _dynamic_seed e = None).
Proof.
  intros _. unfold construct. split_and!.
  - split.
    + intros [e He]. destruct cfg as [items|items]; cbn in He; [done|].
      destruct (items !! "replay_path") as [v|] eqn:Hv; [|done].
      by exists items, v.
    + intros (items & v & -> & Hv). cbn. rewrite Hv. by eexists.
  - done.
  - intros e He. destruct (cfg_getattr cfg "replay_path"); [done|].
    by injection He as <-.
Qed.

(** [default_config] of this class is the general recipe at the class's own
    name and [config].  For any class, the recipe yields an [EasyDict] that
    has [cfg_type] set to the class name followed by ['Dict'] and every other
    key as in the class's [config]; so whenever that [config] names a
    [replay_path] (and the engine constants are positive), the constructor
    accepts the default configuration and the instance gets that replay
    path. *)
Theorem default_config_constructs (name : string)
    (class_config : gmap string (option string)) :
  default_config = default_config_of "MartisGameEnv" config ∧
  cfg_getattr (default_config_of name class_config) "cfg_type"
    = inr (Some (name +:+ "Dict")) ∧
  (∀ k, k ≠ "cfg_type" →
     cfg_items (default_config_of name class_config) !! k
       = class_config !! k) ∧
  (∀ v, sizes_positive → class_config !! "replay_path" = Some v →
     ∃ e : Env,
       construct (default_config_of name class_config) = inr e ∧
       _replay_path e = v).
Proof.
  unfold default_config_of. split_and!.
  - done.
  - cbn. by rewrite lookup_insert_eq.
  - intros k Hk. cbn. by rewrite lookup_insert_ne.
  - intros v _ Hv. unfold construct. cbn.
    rewrite lookup_insert_ne by done. rewrite Hv. by eexists.
Qed.

(** ** Random actions *)


(** ** The reported episode return *)

(** When a step of an episode comes back with [done], the
    'eval_episode_return' it reports is the sum of the rewards of all the
    timesteps the caller was given since the [reset], this one included. *)
Theorem reported_return_is_episode_sum (w w1 w2 : W)
    (actions : list Action) (a : Action)
    (tss : list Timestep) (ts : Timestep) :
  sizes_positive →
  run_steps actions (snd (reset w)) = (inr tss, w1) →
  step a w1 = (inr ts, w2) →
  done ts = true →
  info ts !! "eval_episode_return"
    = Some (VNum (fold_left radd (reward <$> (tss ++ [ts])%list) rzero)).
Proof.
  intros _ Hrun Hstep Hdone.
  assert (_eval_episode_return (self w1)
          = Some (fold_left radd (reward <$> tss) rzero)) as Hacc.
  { pose proof (run_steps_accumulator actions (snd (reset w)) rzero) as H.
    rewrite Hrun in H. destruct (run_steps_rewards _ _ _ _ Hrun) as [-> _].
    apply H. by rewrite reset_unfold. }
  apply step_returns_inv in Hstep
    as (o & rew & terminated & truncated & inf & g' & acc
        & _ & Hacc' & -> & _).
  rewrite Hacc in Hacc'. injection Hacc' as <-.
  cbn in Hdone. rewrite fmap_app, fold_left_app. cbn. rewrite Hdone.
  apply lookup_insert_eq.
Qed.

(** ** Normalization *)

Lemma squeeze_shape_size (nd : ndarray) :
  shape_size (shape (squeeze nd)) = shape_size (shape nd).
Proof.
  unfold squeeze, shape_size; cbn.
  induction (shape nd) as [|d sh IH]; [done|].
  rewrite filter_cons. destruct (decide (d ≠ 1%nat)) as [|Hd]; cbn.
  - by rewrite IH.
  - rewrite IH. destruct (decide (d = 1%nat)) as [->|]; [lia|done].
Qed.

(** Normalizing an action twice is normalizing it once; an int or a list is
    never changed, and an array keeps its contents and its number of
    elements. *)
Theorem normalize_action_idempotent (a : Action) :
  normalize_action (normalize_action a) = normalize_action a ∧
  (∀ i, a = PyInt i → normalize_action a = PyInt i) ∧
  (∀ l, a = PyList l → normalize_action a = PyList l) ∧
  (∀ nd, a = NdArray nd →
     ∃ nd', normalize_action a = NdArray nd' ∧
            data nd' = data nd ∧
            shape_size (shape nd') = shape_size (shape nd)).
Proof.
  split_and!.
  - destruct a as [i|l|nd]; [done..|].
    destruct (decide (shape nd = [1%nat])) as [Hshape|Hshape].
    + rewrite normalize_action_shape_1 by done. done.
    + assert (normalize_action (NdArray nd) = NdArray nd) as Hsame.
      { apply normalize_action_other. by intros ? [= <-]. }
      by rewrite !Hsame.
  - by intros i ->.
  - by intros l ->.
  - intros nd ->. cbn. case_bool_decide.
    + eexists. split; [done|]. split; [done|]. apply squeeze_shape_size.
    + by exists nd.
Qed.

End AdapterRestFacts.

(** ** The same facts on the toy engine *)

(** Two seeds in a row on the new toy instance: the second one is the one
    stored and given to numpy. *)
Lemma seed_last_wins_witness :
  seed_accepted 7 = true ∧ seed_accepted 0 = true ∧
  snd (seed 0 false (snd (seed 7 true Toy.w_new)))
    = snd (seed 0 false Toy.w_new) ∧
  np_random_seed (snd (seed 0 false Toy.w_new)) = Some 0.
Proof.
  destruct (seed_last_wins 7 0 true false Toy.w_new eq_refl eq_refl)
    as (_ & _ & _ & Hnp & _ & _ & Hlast).
  split; [reflexivity|]. split; [reflexivity|].
  split; [exact Hlast|exact Hnp].
Defined.

(** Asking for a replay in the middle of an episode and then stepping is
    stepping and then asking for the replay. *)
Lemma bookkeeping_commutes_witness :
  sizes_positive (engine := Toy.engine20) ∧
  bookkeeping (CallEnableSaveReplay (Some "/tmp/x")) = true ∧
  step (PyInt 1) (call (CallEnableSaveReplay (Some "/tmp/x")) Toy.w_reset)
    = (fst (step (PyInt 1) Toy.w_reset),
       call (CallEnableSaveReplay (Some "/tmp/x"))
         (snd (step (PyInt 1) Toy.w_reset))).
Proof.
  assert (sizes_positive (engine := Toy.engine20)) as Hpos
    by (split; apply Nat.lt_0_succ).
  split; [exact Hpos|]. split; [reflexivity|].
  apply (bookkeeping_commutes (CallEnableSaveReplay (Some "/tmp/x"))
           (PyInt 1) Toy.w_reset Hpos).
  reflexivity.
Defined.

(** An action out of the toy engine's range: its [IndexError] is what the
    caller gets, and the episode return stays at 0. *)
Lemma step_raises_iff_witness :
  fst (step (PyInt 9) Toy.w_reset) = inl (EngineError "IndexError") ∧
  _eval_episode_return (self (snd (step (PyInt 9) Toy.w_reset))) = Some 0.
Proof.
  destruct (step_raises_iff (PyInt 9) Toy.w_reset)
    as (_ & Hengine & _ & Hworld).
  assert (fst (step (PyInt 9) Toy.w_reset) = inl (EngineError "IndexError"))
    as Hraise by (apply Hengine; reflexivity).
  split; [exact Hraise|].
  destruct (Hworld _ Hraise) as [_ Hacc]. exact Hacc.
Defined.

(** Seeded, closed and stepped on, but never reset: [step] raises. *)
Lemma step_before_reset_raises_witness :
  construct default_config = inr (self Toy.w_new) ∧
  ∃ exn,
    fst (step (PyInt 1)
           (run_calls [CallSeed 7 true; CallClose; CallStep (PyInt 1)]
              Toy.w_new))
    = inl exn.
Proof.
  split; [reflexivity|].
  apply (step_before_reset_raises default_config (self Toy.w_new) None
           [CallSeed 7 true; CallClose; CallStep (PyInt 1)] (PyInt 1)).
  - reflexivity.
  - intros Hin.
    repeat (apply elem_of_cons in Hin as [Hin|Hin]; [discriminate Hin|]).
    apply elem_of_nil in Hin. exact Hin.
Defined.

(** Reset and then closed: [step] returns, as the engine serves the move. *)
Lemma step_after_reset_raises_only_with_engine_witness :
  CallReset ∈ [CallReset; CallClose] ∧
  ∃ ts,
    fst (step (PyInt 1) (run_calls [CallReset; CallClose] Toy.w_new))
    = inr ts.
Proof.
  assert (CallReset ∈ [CallReset; CallClose]) as Hin by apply list_elem_of_here.
  split; [exact Hin|].
  assert (sizes_positive (engine := Toy.engine20)) as Hpos
    by (split; apply Nat.lt_0_succ).
  apply (step_after_reset_raises_only_with_engine Toy.w_new
           [CallReset; CallClose] (PyInt 1) Hpos Hin).
  eexists. reflexivity.
Defined.

(** The first move of the toy game: reward 1 and the one-bit state come
    through, and the engine is where its own step left it. *)
Lemma step_passes_engine_results_through_witness :
  ∃ ts w',
    step (PyInt 1) Toy.w_reset = (inr ts, w') ∧
    observation (obs ts) = [true] ∧ reward ts = 1 ∧
    (done ts = false → Toy.turns (game (self w')) = 1%nat).
Proof.
  eexists _, _. split; [reflexivity|].
  edestruct (step_passes_engine_results_through (PyInt 1) Toy.w_reset)
    as (Hobs & Hrew & Hgame & _); [reflexivity..|].
  split; [exact Hobs|]. split; [exact Hrew|].
  intros Hdone. rewrite (Hgame Hdone). reflexivity.
Defined.

(** The toy instance after its first [reset()] is reachable, hence
    consistent, and [close()] leaves it as it is. *)
Lemma reachable_consistent_witness :
  reachable Toy.w_reset ∧ consistent Toy.w_reset.
Proof.
  assert (reachable Toy.w_reset) as Hreach.
  { apply (reachable_call CallReset).
    apply (reachable_new default_config). reflexivity. }
  split; [exact Hreach|]. exact (reachable_consistent Toy.w_reset Hreach).
Defined.

Lemma close_changes_nothing_witness :
  reachable Toy.w_reset ∧ close Toy.w_reset = (inr tt, Toy.w_reset).
Proof.
  assert (reachable Toy.w_reset) as Hreach.
  { apply (reachable_call CallReset).
    apply (reachable_new default_config). reflexivity. }
  split; [exact Hreach|]. exact (close_changes_nothing Toy.w_reset Hreach).
Defined.

(** The default configuration of this class is accepted, with no replay
    path. *)
Lemma default_config_constructs_witness :
  config !! "replay_path" = Some None ∧
  ∃ e : MartisGameEnv Z Toy.Game,
    construct (default_config_of "MartisGameEnv" config) = inr e ∧
    _replay_path e = None.
Proof.
  split; [reflexivity|].
  apply (default_config_constructs (G := Toy.Game) "MartisGameEnv" config).
  - split; apply Nat.lt_0_succ.
  - reflexivity.
Defined.

(** The toy episode of the moves 1 and 2 reports the return 3. *)
Lemma reported_return_is_episode_sum_witness :
  ∃ tss w1 ts w2,
    run_steps [PyInt 1] (snd (reset Toy.w_new)) = (inr tss, w1) ∧
    step (PyInt 2) w1 = (inr ts, w2) ∧
    done ts = true ∧
    info ts !! "eval_episode_return"
      = Some (VNum (fold_left radd (reward <$> (tss ++ [ts])%list) rzero)) ∧
    fold_left radd (reward <$> (tss ++ [ts])%list) rzero = 3.
Proof.
  eexists _, _, _, _.
  split; [reflexivity|]. split; [reflexivity|]. split; [reflexivity|].
  split; [|reflexivity].
  eapply (reported_return_is_episode_sum Toy.w_new _ _ [PyInt 1] (PyInt 2));
    [split; apply Nat.lt_0_succ|reflexivity..].
Defined.

(** The toy instance is built from its configuration, and its first
    [reset()] leaves seed, replay path and spaces alone. *)
Lemma construct_returns_iff_witness :
  sizes_positive (engine := Toy.engine20) ∧
  ∃ e : MartisGameEnv Z Toy.Game, construct default_config = inr e.
Proof.
  assert (sizes_positive (engine := Toy.engine20)) as Hpos
    by (split; apply Nat.lt_0_succ).
  split; [exact Hpos|].
  apply (proj1 (construct_returns_iff default_config Hpos)).
  eexists _, _. split; reflexivity.
Defined.

Lemma reset_frame_witness :
  sizes_positive (engine := Toy.engine20) ∧
  _replay_path (self (snd (reset Toy.w_new))) = None ∧
  _observation_space (self (snd (reset (snd (reset Toy.w_new)))))
    = {| mb_n := 1280 |}.
Proof.
  assert (sizes_positive (engine := Toy.engine20)) as Hpos
    by (split; apply Nat.lt_0_succ).
  destruct (reset_frame Toy.w_new Hpos)
    as (_ & _ & _ & _ & _ & Hpath & _ & _ & _ & _ & Hspace).
  split; [exact Hpos|]. split; [exact Hpath|exact Hspace].
Defined.
